(** * Transaction: validation of a UTXO-style transaction (transaction.js)

    A shallow embedding of the class [Transaction] of [transaction.js] and
    the properties of its methods.

    Conventions of the embedding.
    - JavaScript strings (transaction ids, addresses, PEM public keys, hex
      signatures) are [string]s.
    - Amounts are JavaScript numbers, that is IEEE 754 doubles.  The model
      has the doubles that are integers, together with the two infinities
      and NaN, which sums of integers can reach: [number].  Addition rounds
      to the nearest double, ties to even, and overflows to an infinity
      ([jsAdd]).  The two zeros are not told apart, and fractions are left
      out (an amount is a number of coins).
    - An object has its properties in the order in which they were
      inserted, which [JSON.stringify] follows.  The records of the input
      and output objects carry this order ([inputKeys], [outputKeys]).
    - An output is a mutable object [{amount, address}].  [addFee] updates
      such an object in place, so outputs live in a store ([heap]) and arrays
      hold references ([loc]) to them: two positions of an array, or two
      arrays, may hold the same object.
    - Inputs are never written to by the class and are modelled as values.
    - A method either returns or throws; [result] records which.
    - [utils.hash], [utils.calcAddress], [utils.verifySignature] (module
      [utils.js]) and the built-in [JSON.stringify] are consumed at their
      interface: the class [Utils] collects them. *)

From stdpp Require Import base option list strings functions gmap fin_maps pretty.
From Stdlib Require Import ZArith Lia.

Local Open Scope Z_scope.

(** ** Numbers *)

(** A double that is an integer ([Num z], where [z] is meant to satisfy
    [representable]), an infinity or NaN. *)
Inductive number :=
  | Num (z : Z)
  | PosInfinity
  | NegInfinity
  | NaN.

(** The integer double nearest to the integer [x], ties going to the even
    significand, with no bound on the exponent.  Below [2 ^ 53] in absolute
    value every integer is a double; from there on the doubles are the
    multiples of [2 ^ e] in the binade of [x], where [e + 52] is the
    exponent of [x]. *)
Definition roundNearestEven (x : Z) : Z :=
  if Z.abs x <? 2 ^ 53 then x
  else
    let e := Z.log2 (Z.abs x) - 52 in
    let q := Z.abs x / 2 ^ e in
    let r := Z.abs x mod 2 ^ e in
    let half := 2 ^ (e - 1) in
    let m := if r <? half then q
             else if half <? r then q + 1
             else if Z.even q then q else q + 1 in
    Z.sgn x * (m * 2 ^ e).

(** The integers that are doubles. *)
Definition representable (z : Z) : bool :=
  (roundNearestEven z =? z) && (Z.abs z <? 2 ^ 1024).

(** A rounded integer as a number: from [2 ^ 1024] on it is an infinity. *)
Definition toNumber (x : Z) : number :=
  if 2 ^ 1024 <=? Z.abs x
  then (if x <? 0 then NegInfinity else PosInfinity)
  else Num x.

(** The operator [+] on numbers. *)
Definition jsAdd (a b : number) : number :=
  match a, b with
  | NaN, _ | _, NaN => NaN
  | PosInfinity, NegInfinity | NegInfinity, PosInfinity => NaN
  | PosInfinity, _ | _, PosInfinity => PosInfinity
  | NegInfinity, _ | _, NegInfinity => NegInfinity
  | Num x, Num y => toNumber (roundNearestEven (x + y))
  end.

Arguments jsAdd : simpl never.

(** The operator [<=] on numbers. *)
Definition number_leb (a b : number) : bool :=
  match a, b with
  | NaN, _ | _, NaN => false
  | Num x, Num y => x <=? y
  | NegInfinity, _ => true
  | _, PosInfinity => true
  | _, _ => false
  end.

(** A non-negative integer that is a double: an amount of coins. *)
Definition nonNegativeInteger (n : number) : Prop :=
  ∃ z, n = Num z ∧ 0 ≤ z ∧ representable z = true.

(** The integer that a finite number holds. *)
Definition valueOf (n : number) : Z :=
  match n with
  | Num z => z
  | _ => 0
  end.

(** Sums over the integers, and of their absolute values: while the latter
    stays within [2 ^ 53], every partial sum of the former is exact. *)
Definition sumZ (zs : list Z) : Z := foldr Z.add 0 zs.
Definition sumAbs (zs : list Z) : Z := foldr (λ z s, Z.abs z + s) 0 zs.

(** ** Data model *)

(** The property names of the two kinds of object. *)
Inductive OutputKey := amountKey | addressKey.
Inductive InputKey := txIDKey | outputIndexKey | pubKeyKey | sigKey.

(** An output object: the values of its properties [amount] and [address],
    and the order in which the object has them. *)
Record Output := OutputObject {
  amount : number;
  address : string;
  outputKeys : list OutputKey
}.

(** An input object: the values of its properties [txID], [outputIndex],
    [pubKey] and [sig], and the order in which the object has them. *)
Record Input := InputObject {
  txID : string;
  outputIndex : nat;
  pubKey : string;
  sig : string;
  inputKeys : list InputKey
}.

(** The object literals [{amount, address}], with an integer literal for
    the amount, and [{txID, outputIndex, pubKey, sig}]. *)
Definition mkOutput (amount : Z) (address : string) : Output :=
  OutputObject (toNumber (roundNearestEven amount)) address
    [amountKey; addressKey].
Definition mkInput (txID : string) (outputIndex : nat) (pubKey sig : string)
    : Input :=
  InputObject txID outputIndex pubKey sig
    [txIDKey; outputIndexKey; pubKeyKey; sigKey].

(** References to output objects, and the store that holds the objects. *)
Definition loc := nat.
Abbreviation heap := (loc → Output).

(** The amounts of the objects of an array. *)
Definition amounts (h : heap) (l : list loc) : list number :=
  (λ o, amount (h o)) <$> l.

(** A transaction object: its three properties.  [outputs] is an array of
    references to output objects. *)
Record Transaction := mkTransaction {
  id : string;
  inputs : list Input;
  outputs : list loc
}.

(** The UTXO index: a JavaScript object used as a map from a transaction id
    to the array of the outputs of that transaction that are unspent. *)
Abbreviation UTXOs := (gmap string (list loc)).

(** ** Exceptions *)

(** The kinds of error of the error taxonomy.  The three
    [throw new Error(...)] statements of [spendOutput] build errors of the
    kinds [ReferenceMismatch], [AddressMismatch] and [InvalidSignature], in
    this order; no statement of the class builds an [IndexOutOfRange]. *)
Inductive ErrorKind :=
  | ReferenceMismatch
  | IndexOutOfRange
  | AddressMismatch
  | InvalidSignature.

(** What a method can throw: an [Error] built by a [throw] statement of the
    class, with its message, or the [TypeError] that the runtime raises when
    a property of [undefined] is read. *)
Inductive exn :=
  | Error (kind : ErrorKind) (message : string)
  | TypeError.

Inductive result (A : Type) :=
  | Return (a : A)
  | Throw (e : exn).
Arguments Return {A} a.
Arguments Throw {A} e.

(** ** The interface of [utils.js] and of [JSON.stringify] *)

Class Utils := {
  hash : string → string;
  calcAddress : string → string;
  verifySignature : string → Output → string → bool;
  (** [JSON.stringify({inputs, outputs})], on the objects of the two
      arrays: the values of their properties and the order of these *)
  JSON_stringify : list Input → list Output → string
}.

(** ** The methods of the class *)

Section Methods.
Context {utils : Utils}.

(** [constructor({outputs, inputs=[]})]: an omitted [inputs] is the empty
    array; the id is the hash of the serialisation of the objects that
    the two arrays hold at this moment, appended to the empty string. *)
Definition constructor (h : heap) (outputs : list loc)
    (inputs : option (list Input)) : Transaction :=
  let inputs := default [] inputs in
  {| inputs := inputs;
     outputs := outputs;
     id := hash (EmptyString +:+ JSON_stringify inputs (h <$> outputs)) |}.

(** [spendOutput(input)] *)
Definition spendOutput (this : Transaction) (h : heap) (input : Input)
    : result number :=
  if decide (txID input ≠ id this) then
    Throw (Error ReferenceMismatch
      ("Transaction id of input was " +:+ txID input +:+
       ", but this transaction's id is " +:+ id this))
  else
    match outputs this !! outputIndex input with
    | None => Throw TypeError
    | Some output =>
      if decide (calcAddress (pubKey input) ≠ address (h output)) then
        Throw (Error AddressMismatch
          ("Public key does not match its hash for tx " +:+ id this +:+
           ", output " +:+ pretty (outputIndex input) +:+ "."))
      else if negb (verifySignature (pubKey input) (h output) (sig input)) then
        Throw (Error InvalidSignature
          ("Invalid signature for " +:+ id this +:+
           ", outpout " +:+ pretty (outputIndex input) +:+ "."))
      else
        Return (amount (h output))
    end.

(** [isValid(utxos)]: the three nested loops, which set [found] whenever a
    signature check succeeds and never reset it.  [for (let utxo in utxos)]
    runs over the keys of the map and [utxos[utxo]] is the array stored
    there: the loop runs over the entries of the map. *)
Definition isValid (this : Transaction) (h : heap) (utxos : UTXOs) : bool :=
  foldl (λ found input,
    foldl (λ found '(utxo, objs),
      foldl (λ found obj,
        if verifySignature (pubKey input) (h obj) (sig input)
        then true else found)
      found (objs : list loc))
    found (map_to_list utxos))
  false (inputs this).

(** [addFee(amount)]: [this.outputs[0].amount += amount] writes the sum to
    the property [amount] of the object that the first position of
    [outputs] refers to, which keeps its other property and the order of
    the two; on an empty array [this.outputs[0]] is [undefined] and reading
    its [amount] raises a [TypeError].  The result is the state after the
    call: the transaction object, none of whose properties is assigned, and
    the store. *)
Definition addFee (this : Transaction) (h : heap) (fee : number)
    : result (Transaction * heap) :=
  match outputs this !! 0%nat with
  | None => Throw TypeError
  | Some o =>
    Return (this, <[o := {| amount := jsAdd (amount (h o)) fee;
                            address := address (h o);
                            outputKeys := outputKeys (h o) |}]> h)
  end.

(** [totalOutput()]: the [reduce] from [0]. *)
Definition totalOutput (this : Transaction) (h : heap) : number :=
  foldl (λ acc o, jsAdd acc (amount (h o))) (Num 0) (outputs this).

(** ** The validity check as section 4.3 of the specification words it

    This is not the code: it is the check that the specification asks for,
    to be compared with [isValid] above.  Each input is checked against the
    output at its own claimed [(txID, outputIndex)], and yields the amount
    of that output when the lookup, the address and the signature checks
    pass. *)
Definition checkInput (h : heap) (utxos : UTXOs) (input : Input)
    : option number :=
  objs ← utxos !! txID input;
  obj ← (objs : list loc) !! outputIndex input;
  if bool_decide (calcAddress (pubKey input) = address (h obj))
     && verifySignature (pubKey input) (h obj) (sig input)
  then Some (amount (h obj)) else None.

(** Every input passes, and the matched amounts, accumulated in order,
    cover the outputs. *)
Definition positionallyValid (this : Transaction) (h : heap) (utxos : UTXOs)
    : bool :=
  match mapM (checkInput h utxos) (inputs this) with
  | Some matched => number_leb (totalOutput this h) (foldl jsAdd (Num 0) matched)
  | None => false
  end.

(** The contents of all the outputs stored in the index, key after key. *)
Definition storedOutputs (h : heap) (utxos : UTXOs) : list Output :=
  '(_, objs) ← map_to_list utxos; h <$> (objs : list loc).

End Methods.

(** ** A deterministic instance of the interface

    A toy scheme in which the key pair is one string: the address of a key
    is the key wrapped in [addr(...)], and the one valid signature of an
    output under a key spells out the key, the amount and the address.  The
    serialisation writes the properties of each object in the order the
    object has them. *)
Module Fake.

Definition show_number (n : number) : string :=
  match n with
  | Num z => pretty z
  | _ => "null"
  end.

Definition sign (key : string) (o : Output) : string :=
  "sig(" +:+ key +:+ "," +:+ show_number (amount o) +:+ "," +:+
  address o +:+ ")".

Definition show_input (i : Input) : string :=
  "{" +:+ String.concat ","
    ((λ k, match k with
           | txIDKey => "txID:" +:+ txID i
           | outputIndexKey => "outputIndex:" +:+ pretty (outputIndex i)
           | pubKeyKey => "pubKey:" +:+ pubKey i
           | sigKey => "sig:" +:+ sig i
           end) <$> inputKeys i) +:+ "}".

Definition show_output (o : Output) : string :=
  "{" +:+ String.concat ","
    ((λ k, match k with
           | amountKey => "amount:" +:+ show_number (amount o)
           | addressKey => "address:" +:+ address o
           end) <$> outputKeys o) +:+ "}".

#[global] Instance utils : Utils := {|
  hash s := "#" +:+ s;
  calcAddress key := "addr(" +:+ key +:+ ")";
  verifySignature key o s := bool_decide (s = sign key o);
  JSON_stringify ins outs :=
    "{inputs:[" +:+ String.concat "," (show_input <$> ins) +:+
    "],outputs:[" +:+ String.concat "," (show_output <$> outs) +:+ "]}"
|}.

(** The store of the examples: object [0] holds 30 coins, object [1] holds
    10, object [2] holds 20 and object [3] holds 25, all at the address of
    the key [K]. *)
Definition store : heap := λ l,
  match l with
  | 0%nat => mkOutput 30 "addr(K)"
  | 1%nat => mkOutput 10 "addr(K)"
  | 2%nat => mkOutput 20 "addr(K)"
  | _ => mkOutput 25 "addr(K)"
  end.

(** A store whose objects hold 25 coins at the address of [K] and were
    built as [{address, amount}]: the same contents as object [3] of
    [store], the properties in the other order. *)
Definition swappedStore : heap := λ _,
  OutputObject (Num 25) "addr(K)" [addressKey; amountKey].

(** A store in which object [0] holds [2 ^ 53] coins and the others one
    coin. *)
Definition bigStore : heap := λ l,
  match l with
  | 0%nat => mkOutput (2 ^ 53) "addr(K)"
  | _ => mkOutput 1 "addr(K)"
  end.

(** The index of the examples: the transaction [T1] has one unspent output,
    the object [0] (30 coins), respectively the object [1] (10 coins). *)
Definition utxos30 : UTXOs := {[ "T1" := [0%nat] ]}.
Definition utxos10 : UTXOs := {[ "T1" := [1%nat] ]}.

(** An input that spends output 0 of [T1] under the key [K], signed for the
    30-coin object, respectively for the 10-coin object. *)
Definition spend30 : Input := mkInput "T1" 0 "K" (sign "K" (store 0%nat)).
Definition spend10 : Input := mkInput "T1" 0 "K" (sign "K" (store 1%nat)).

(** The acceptance scenario: 30 coins in, 25 out. *)
Definition accepted : Transaction := constructor store [3%nat] (Some [spend30]).

(** One valid input of 10 coins, one output of 20 coins. *)
Definition insufficient : Transaction :=
  constructor store [2%nat] (Some [spend10]).

(** The same input twice: 30 coins referenced twice, 25 out. *)
Definition doubleSpend : Transaction :=
  constructor store [3%nat] (Some [spend30; spend30]).

(** Two inputs that reference output 0 of [T1], neither with a signature
    of any object. *)
Definition forged : Transaction :=
  constructor store [3%nat]
    (Some [mkInput "T1" 0 "K" "bad"; mkInput "T1" 0 "J" "worse"]).

(** An input whose txID [T9] is no key of the index, carrying a signature
    of the 30-coin object. *)
Definition dangling : Transaction :=
  constructor store [3%nat]
    (Some [mkInput "T9" 0 "K" (sign "K" (store 0%nat))]).

(** A coinbase transaction: no inputs, one output of 25 coins. *)
Definition coinbase : Transaction := constructor store [3%nat] None.

(** A coinbase transaction whose two outputs are one and the same object. *)
Definition aliased : Transaction := constructor store [2%nat; 2%nat] None.

(** A coinbase transaction, built in [bigStore], with one output of
    [2 ^ 53] coins. *)
Definition big : Transaction := constructor bigStore [0%nat] None.

(** A second instance of the interface: the signature check of [utils],
    another hash and another address derivation. *)
Definition otherUtils : Utils := {|
  hash s := "h:" +:+ s;
  calcAddress key := key;
  verifySignature key o s := bool_decide (s = sign key o);
  JSON_stringify ins outs := String.concat ";" (show_output <$> outs)
|}.

(** An input that spends output 0 of the coinbase transaction under the key
    [K], and a transaction that carries it. *)
Definition spendCoinbase : Input :=
  mkInput (id coinbase) 0 "K" (sign "K" (store 3%nat)).
Definition spender : Transaction :=
  constructor store [1%nat] (Some [spendCoinbase]).

End Fake.
(** * Properties *)

(** ** Loops that only ever raise a flag *)

Section Flag.
Context {A : Type}.

Lemma foldl_flag (f : bool → A → bool) (p : A → bool) (l : list A) :
  (∀ b x, f b x = b || p x) →
  ∀ b, foldl f b l = b || existsb p l.
Proof.
  intros Hf. induction l as [|x l IH]; intros b; simpl.
  - by rewrite orb_false_r.
  - by rewrite IH, Hf, orb_assoc.
Qed.

Lemma existsb_elem_of (p : A → bool) (l : list A) :
  existsb p l = true ↔ ∃ x, x ∈ l ∧ p x = true.
Proof.
  rewrite existsb_exists. by setoid_rewrite list_elem_of_In.
Qed.

Lemma existsb_Permutation (p : A → bool) (l k : list A) :
  l ≡ₚ k → existsb p l = existsb p k.
Proof.
  intros Hp. apply eq_true_iff_eq. rewrite !existsb_elem_of.
  by setoid_rewrite Hp.
Qed.

Lemma existsb_bind {B} (p : B → bool) (g : A → list B) (l : list A) :
  existsb p (l ≫= g) = existsb (λ x, existsb p (g x)) l.
Proof.
  induction l as [|x l IH]; [done|].
  rewrite bind_cons. simpl. by rewrite existsb_app, IH.
Qed.

End Flag.

(** ** Arithmetic of numbers *)

Lemma roundNearestEven_small (x : Z) :
  Z.abs x ≤ 2 ^ 53 → roundNearestEven x = x.
Proof.
  intros Hx. unfold roundNearestEven.
  destruct (Z.ltb_spec (Z.abs x) (2 ^ 53)) as [|Hge]; [done|].
  assert (Hcase : x = 2 ^ 53 ∨ x = - 2 ^ 53) by lia.
  destruct Hcase as [-> | ->]; by vm_compute.
Qed.

Lemma pow_53_1024 : 2 ^ 53 < 2 ^ 1024.
Proof. by vm_compute. Qed.

(** Within [2 ^ 53] in absolute value the sum of two integers is exact. *)
Lemma jsAdd_exact (x y : Z) :
  Z.abs (x + y) ≤ 2 ^ 53 → jsAdd (Num x) (Num y) = Num (x + y).
Proof.
  intros Hs. unfold jsAdd. rewrite roundNearestEven_small by done.
  unfold toNumber. pose proof pow_53_1024.
  destruct (Z.leb_spec (2 ^ 1024) (Z.abs (x + y))); [lia|done].
Qed.

(** Rounding does not go below a double that the rounded integer is not
    below. *)
Lemma roundNearestEven_lower (a s : Z) :
  0 ≤ a → roundNearestEven a = a → a ≤ s → a ≤ roundNearestEven s.
Proof.
  intros Ha Hrep Has. unfold roundNearestEven.
  destruct (Z.ltb_spec (Z.abs s) (2 ^ 53)) as [|Hs]; [done|].
  rewrite Z.abs_eq in * by lia. rewrite (Z.sgn_pos s) by lia.
  set (e := Z.log2 s - 52). set (q := s / 2 ^ e).
  assert (Hlog : 53 ≤ Z.log2 s) by (apply Z.log2_le_pow2; lia).
  assert (He : 1 ≤ e) by (unfold e; lia).
  assert (Hpow : 0 < 2 ^ e) by (apply Z.pow_pos_nonneg; lia).
  destruct (Z.log2_spec s) as [Hlo Hhi]; [lia|].
  assert (Hbinade : 2 ^ Z.log2 s = 2 ^ 52 * 2 ^ e).
  { rewrite <- Z.pow_add_r by lia. f_equal. unfold e. lia. }
  assert (Hq : 2 ^ 52 ≤ q).
  { unfold q. apply Z.div_le_lower_bound; [done|]. lia. }
  assert (Hlow : a ≤ q * 2 ^ e).
  { destruct (Z.ltb_spec a (2 ^ 53)) as [Hsmall|Hbig].
    - assert (2 ^ 53 ≤ 2 ^ 52 * 2 ^ e).
      { replace (2 ^ 53) with (2 ^ 52 * 2 ^ 1) by done.
        apply Z.mul_le_mono_nonneg_l; [done|]. apply Z.pow_le_mono_r; lia. }
      nia.
    - unfold roundNearestEven in Hrep.
      destruct (Z.ltb_spec (Z.abs a) (2 ^ 53)) as [|_]; [lia|].
      rewrite Z.abs_eq in Hrep by lia. rewrite (Z.sgn_pos a) in Hrep by lia.
      set (ea := Z.log2 a - 52) in *.
      assert (Hle : Z.log2 a ≤ Z.log2 s) by (by apply Z.log2_le_mono).
      destruct (Z.log2_spec a) as [Halo Hahi]; [lia|].
      destruct (decide (ea = e)) as [Heq|Hne].
      + rewrite Heq in Hrep.
        match type of Hrep with 1 * (?m * _) = _ => set (k := m) in * end.
        assert (k ≤ q); [|nia].
        unfold q. apply Z.div_le_lower_bound; [done|]. lia.
      + assert (Z.log2 a + 1 ≤ Z.log2 s) by (unfold ea, e in *; lia).
        assert (2 ^ Z.succ (Z.log2 a) ≤ 2 ^ Z.log2 s).
        { apply Z.pow_le_mono_r; lia. }
        nia. }
  cbv zeta. fold e. fold q.
  repeat case_match; nia.
Qed.

(** Adding a non-negative integer [a] to a non-negative number keeps it
    above every non-negative double [b] that it was above, or that [a] is
    above. *)
Lemma jsAdd_lower (acc : number) (a b : Z) :
  number_leb (Num 0) acc = true →
  0 ≤ a → 0 ≤ b → roundNearestEven b = b →
  number_leb (Num b) acc = true ∨ b ≤ a →
  number_leb (Num b) (jsAdd acc (Num a)) = true.
Proof.
  intros Hacc Ha Hb Hrep Hle.
  destruct acc as [c| | |]; unfold jsAdd; simpl in *; try done.
  apply Z.leb_le in Hacc.
  assert (Hbs : b ≤ c + a).
  { destruct Hle as [Hle%Z.leb_le|Hle]; lia. }
  pose proof (roundNearestEven_lower b (c + a) Hb Hrep Hbs) as Hr.
  unfold toNumber. destruct (Z.leb_spec (2 ^ 1024) (Z.abs (roundNearestEven (c + a)))).
  - destruct (Z.ltb_spec (roundNearestEven (c + a)) 0); [lia|done].
  - simpl. by apply Z.leb_le.
Qed.

(** ** Sums of amounts *)

Lemma sumAbs_nonneg (zs : list Z) : 0 ≤ sumAbs zs.
Proof. induction zs as [|z zs IH]; simpl; lia. Qed.

Lemma sumZ_Permutation (zs zs' : list Z) : zs ≡ₚ zs' → sumZ zs = sumZ zs'.
Proof. induction 1; simpl; lia. Qed.

Lemma sumAbs_Permutation (zs zs' : list Z) : zs ≡ₚ zs' → sumAbs zs = sumAbs zs'.
Proof. induction 1; simpl; lia. Qed.

(** While the absolute values add up to at most [2 ^ 53], the [reduce] over
    integers is their exact sum. *)
Lemma foldl_jsAdd_exact (zs : list Z) (a : Z) :
  Z.abs a + sumAbs zs ≤ 2 ^ 53 →
  foldl jsAdd (Num a) (Num <$> zs) = Num (a + sumZ zs).
Proof.
  revert a. induction zs as [|z zs IH]; intros a Hb; simpl in *.
  - f_equal. lia.
  - pose proof (sumAbs_nonneg zs).
    rewrite jsAdd_exact by lia. rewrite IH by lia. f_equal. lia.
Qed.

Lemma amounts_Num (ns : list number) (zs : list Z) :
  ns ≡ₚ Num <$> zs → ns = Num <$> (valueOf <$> ns) ∧ valueOf <$> ns ≡ₚ zs.
Proof.
  intros Hp. split.
  - assert (Hall : Forall (λ n, n = Num (valueOf n)) ns).
    { rewrite Hp. apply Forall_fmap. by apply Forall_true. }
    clear Hp. induction Hall as [|n ns Hn _ IH]; [done|].
    rewrite !fmap_cons. by f_equal.
  - rewrite Hp. clear Hp.
    replace (valueOf <$> (Num <$> zs)) with zs; [done|].
    induction zs as [|z zs IH]; [done|]. rewrite !fmap_cons. by f_equal.
Qed.

Section Sums.
Context {utils : Utils}.

Lemma totalOutput_amounts (this : Transaction) (h : heap) :
  totalOutput this h = foldl jsAdd (Num 0) (amounts h (outputs this)).
Proof. unfold totalOutput, amounts. by rewrite foldl_fmap. Qed.

Lemma totalOutput_exact (this : Transaction) (h : heap) (zs : list Z) :
  amounts h (outputs this) = Num <$> zs →
  sumAbs zs ≤ 2 ^ 53 →
  totalOutput this h = Num (sumZ zs).
Proof.
  intros Ham Hb. rewrite totalOutput_amounts, Ham.
  by rewrite foldl_jsAdd_exact by (simpl; lia).
Qed.

End Sums.

(** Adding the integer [f] to the amount of the object [o] changes the
    amounts of an array at the positions that hold [o], and there by [f],
    as long as the sums stay within [2 ^ 53]. *)
Lemma amounts_insert (h : heap) (o : loc) (f : Z) (l : list loc) (zs : list Z) :
  let h' : heap :=
    <[o := {| amount := jsAdd (amount (h o)) (Num f);
              address := address (h o);
              outputKeys := outputKeys (h o) |}]> h in
  amounts h l = Num <$> zs →
  sumAbs zs + Z.of_nat (length (filter (o =.) l)) * Z.abs f ≤ 2 ^ 53 →
  ∃ zs', amounts h' l = Num <$> zs'
         ∧ sumAbs zs' ≤ sumAbs zs + Z.of_nat (length (filter (o =.) l)) * Z.abs f
         ∧ sumZ zs' = sumZ zs + f * Z.of_nat (length (filter (o =.) l)).
Proof.
  intros h'. revert zs.
  induction l as [|o' l IH]; intros [|z zs] Ham Hb; try done.
  { exists []. split_and!; [done|done|simpl; lia]. }
  unfold amounts in Ham. rewrite !fmap_cons in Ham.
  injection Ham as Hz Ham. fold (amounts h l) in Ham.
  pose proof (sumAbs_nonneg zs).
  rewrite filter_cons in *. destruct (decide (o = o')) as [<-|Hne].
  - cbn [length] in *. rewrite Nat2Z.inj_succ in *. cbn [sumAbs foldr] in *.
    fold (sumAbs zs) in *.
    destruct (IH zs) as (zs' & Hzs' & Habs & Hsum); [done|nia|].
    exists ((z + f) :: zs'). unfold amounts in *. rewrite !fmap_cons.
    unfold h' at 1. rewrite fn_lookup_insert. cbn [amount].
    rewrite Hz, jsAdd_exact by nia. rewrite Hzs'.
    cbn [sumAbs sumZ foldr]. fold (sumAbs zs') (sumZ zs') (sumZ zs).
    split_and!; [done|lia|lia].
  - cbn [sumAbs foldr] in *. fold (sumAbs zs) in *.
    destruct (IH zs) as (zs' & Hzs' & Habs & Hsum); [done|lia|].
    exists (z :: zs'). unfold amounts in *. rewrite !fmap_cons.
    unfold h' at 1. rewrite fn_lookup_insert_ne by done.
    rewrite Hz, Hzs'.
    cbn [sumAbs sumZ foldr]. fold (sumAbs zs') (sumZ zs') (sumZ zs).
    split_and!; [done|lia|lia].
Qed.

Lemma filter_eq_not_elem_of (o : loc) (l : list loc) :
  o ∉ l → filter (o =.) l = [].
Proof.
  induction l as [|o' l IH]; [done|]. intros [Hne Hnotin]%not_elem_of_cons.
  rewrite filter_cons_False by done. by apply IH.
Qed.

Section Properties.
Context {utils : Utils}.

(** ** What [isValid] computes *)

(** The flag is raised if and only if the signature of some input verifies
    on some object stored somewhere in the index. *)
Lemma isValid_existsb (this : Transaction) (h : heap) (utxos : UTXOs) :
  isValid this h utxos
  = existsb (λ input,
      existsb (λ o, verifySignature (pubKey input) o (sig input))
        (storedOutputs h utxos))
    (inputs this).
Proof.
  unfold isValid, storedOutputs.
  rewrite (foldl_flag _ (λ input,
    existsb (λ o, verifySignature (pubKey input) o (sig input))
      (storedOutputs h utxos))); [done|].
  intros b input. unfold storedOutputs. rewrite existsb_bind.
  rewrite (foldl_flag _ (λ '(_, objs),
    existsb (λ o, verifySignature (pubKey input) o (sig input))
      (h <$> (objs : list loc)))).
  - f_equal. induction (map_to_list utxos) as [|[??] ? IH]; simpl; [done|].
    by rewrite IH.
  - intros b' [utxo objs].
    rewrite (foldl_flag _
      (λ obj, verifySignature (pubKey input) (h obj) (sig input))).
    + f_equal. induction objs as [|? ? IH]; simpl; [done|]. by rewrite IH.
    + intros b'' obj. by destruct (verifySignature _ _ _), b''.
Qed.

Lemma elem_of_storedOutputs (h : heap) (utxos : UTXOs) (o : Output) :
  o ∈ storedOutputs h utxos
  ↔ ∃ utxo objs obj, utxos !! utxo = Some objs ∧ obj ∈ objs ∧ o = h obj.
Proof.
  unfold storedOutputs. rewrite list_elem_of_bind. split.
  - intros ([utxo objs] & Ho & Hin). apply elem_of_map_to_list in Hin.
    apply list_elem_of_fmap in Ho as (obj & -> & Hobj). eauto 6.
  - intros (utxo & objs & obj & Hl & Hobj & ->). exists (utxo, objs). split.
    + apply list_elem_of_fmap. eauto.
    + by apply elem_of_map_to_list.
Qed.

Lemma isValid_true (this : Transaction) (h : heap) (utxos : UTXOs) :
  isValid this h utxos = true
  ↔ ∃ input utxo objs obj,
      input ∈ inputs this ∧ utxos !! utxo = Some objs ∧ obj ∈ objs ∧
      verifySignature (pubKey input) (h obj) (sig input) = true.
Proof.
  rewrite isValid_existsb, existsb_elem_of. split.
  - intros (input & Hin & Hex). apply existsb_elem_of in Hex as (o & Ho & Hv).
    apply elem_of_storedOutputs in Ho as (utxo & objs & obj & ? & ? & ->).
    eauto 10.
  - intros (input & utxo & objs & obj & Hin & Hl & Hobj & Hv).
    exists input. split; [done|]. apply existsb_elem_of. exists (h obj).
    split; [|done]. apply elem_of_storedOutputs. by exists utxo, objs, obj.
Qed.

(** A transaction that passes the positional check of the specification
    and has an input is accepted by [isValid]: the code accepts too much,
    not too little. *)
Lemma positionallyValid_isValid (this : Transaction) (h : heap) (utxos : UTXOs) :
  inputs this ≠ [] →
  positionallyValid this h utxos = true →
  isValid this h utxos = true.
Proof.
  unfold positionallyValid. intros Hne Hv.
  destruct (mapM _ _) as [amounts|] eqn:Hm; [clear Hv|done].
  destruct (inputs this) as [|input rest] eqn:Hin; [done|].
  apply mapM_Some in Hm. inversion Hm as [|? a ? ? Hc _]; subst.
  unfold checkInput in Hc.
  destruct (utxos !! txID input) as [objs|] eqn:Hl; [|done]. simpl in Hc.
  destruct (objs !! outputIndex input) as [obj|] eqn:Hobj; [|done].
  simpl in Hc. case_match eqn:Hchk; [|done].
  apply andb_true_iff in Hchk as [_ Hsig].
  apply isValid_true. exists input, (txID input), objs, obj.
  rewrite Hin. split_and!; [by left|done| |done].
  by eapply list_elem_of_lookup_2.
Qed.

(** ** [isValid] *)

(** C4. A transaction whose [inputs] is empty is rejected by [isValid],
    whatever the index holds: the loop body never runs and [found] stays
    [false]. *)
Theorem isValid_no_inputs (this : Transaction) (h : heap) (utxos : UTXOs) :
  inputs this = [] → isValid this h utxos = false.
Proof. unfold isValid. by intros ->. Qed.

(** C10. The result of [isValid] depends on the inputs only through their
    [(pubKey, sig)] pairs and on the index only through the multiset of the
    outputs stored anywhere in it: two runs, on transactions with at least
    one input, that agree on both return the same boolean, whatever the
    [txID] and [outputIndex] of the inputs, the keys and the order of the
    index and the transactions' own outputs are. *)
Theorem isValid_ignores_references
    (this1 this2 : Transaction) (h1 h2 : heap) (utxos1 utxos2 : UTXOs) :
  inputs this1 ≠ [] →
  (λ i, (pubKey i, sig i)) <$> inputs this1
    = (λ i, (pubKey i, sig i)) <$> inputs this2 →
  storedOutputs h1 utxos1 ≡ₚ storedOutputs h2 utxos2 →
  isValid this1 h1 utxos1 = isValid this2 h2 utxos2.
Proof.
  intros _ Hin Hperm. rewrite !isValid_existsb.
  revert Hin. generalize (inputs this2).
  induction (inputs this1) as [|i1 l1 IH]; intros [|i2 l2] Heq;
    simplify_eq/=; [done|].
  rewrite (IH l2) by done. f_equal.
  match goal with Hp : pubKey _ = _, Hs : sig _ = _ |- _ =>
    rewrite Hp, Hs end.
  by apply existsb_Permutation.
Qed.

(** C2, as the code has it.  [isValid] keeps no set of consumed
    [(txID, outputIndex)] pairs and does not reject a transaction for
    referencing a pair twice.  A transaction with two inputs that reference
    the same pair is rejected whenever the signature of none of its inputs
    verifies on any output stored in the index. *)
Theorem isValid_repeated_reference (this : Transaction) (h : heap)
    (utxos : UTXOs) (n m : nat) (i j : Input) :
  n ≠ m →
  inputs this !! n = Some i →
  inputs this !! m = Some j →
  txID i = txID j →
  outputIndex i = outputIndex j →
  (∀ input utxo objs obj,
     input ∈ inputs this → utxos !! utxo = Some objs → obj ∈ objs →
     verifySignature (pubKey input) (h obj) (sig input) = false) →
  isValid this h utxos = false.
Proof.
  intros _ _ _ _ _ Hnone. apply not_true_iff_false.
  intros (input & utxo & objs & obj & Hin & Hl & Hobj & Hv)%isValid_true.
  by rewrite (Hnone input utxo objs obj) in Hv.
Qed.

(** ** [spendOutput] *)

(** C6. An input whose [txID] differs from the id of the transaction makes
    [spendOutput] throw the reference-mismatch error, whatever its index,
    key and signature are. *)
Theorem spendOutput_ReferenceMismatch
    (this : Transaction) (h : heap) (input : Input) :
  txID input ≠ id this →
  ∃ message, spendOutput this h input = Throw (Error ReferenceMismatch message).
Proof. intros Hne. unfold spendOutput. rewrite decide_True by done. eauto. Qed.

(** C7. With a matching [txID] and an [outputIndex] in range, [spendOutput]
    goes by the object [output] at that index: it throws the
    address-mismatch error when the address of the key differs from that of
    the output; otherwise it throws the invalid-signature error when the
    signature does not verify on the output; otherwise it returns the
    amount of the output. *)
Theorem spendOutput_checks
    (this : Transaction) (h : heap) (input : Input) (output : loc) :
  txID input = id this →
  outputs this !! outputIndex input = Some output →
  (calcAddress (pubKey input) ≠ address (h output) →
     ∃ message,
       spendOutput this h input = Throw (Error AddressMismatch message))
  ∧ (calcAddress (pubKey input) = address (h output) →
     verifySignature (pubKey input) (h output) (sig input) = false →
     ∃ message,
       spendOutput this h input = Throw (Error InvalidSignature message))
  ∧ (calcAddress (pubKey input) = address (h output) →
     verifySignature (pubKey input) (h output) (sig input) = true →
     spendOutput this h input = Return (amount (h output))).
Proof.
  intros Hid Hout. unfold spendOutput.
  rewrite decide_False by (by intros []). rewrite Hout.
  split_and!.
  - intros Hne. rewrite decide_True by done. eauto.
  - intros Heq Hsig. rewrite decide_False by (by intros []).
    rewrite Hsig. simpl. eauto.
  - intros Heq Hsig. rewrite decide_False by (by intros []).
    by rewrite Hsig.
Qed.

(** No [throw] statement of [spendOutput] builds an error of the kind
    [IndexOutOfRange]. *)
Lemma spendOutput_never_IndexOutOfRange
    (this : Transaction) (h : heap) (input : Input) (message : string) :
  spendOutput this h input ≠ Throw (Error IndexOutOfRange message).
Proof.
  unfold spendOutput. repeat case_match; congruence.
Qed.

(** C5, as the code has it.  With a matching [txID] and an [outputIndex]
    out of range, [spendOutput] does fail and returns no amount, but not
    with an error of its own: [this.outputs[outputIndex]] is [undefined]
    and destructuring it raises the runtime's [TypeError], before any
    address or signature check. *)
Theorem spendOutput_out_of_range
    (this : Transaction) (h : heap) (input : Input) :
  txID input = id this →
  (length (outputs this) ≤ outputIndex input)%nat →
  spendOutput this h input = Throw TypeError.
Proof.
  intros Hid Hge. unfold spendOutput.
  rewrite decide_False by (by intros []).
  by rewrite (lookup_ge_None_2 _ _ Hge).
Qed.

(** ** [addFee], [totalOutput] and the id *)

(** [addFee] on a transaction with outputs returns, with the transaction
    object as it is and the sum written to the first output object. *)
Lemma addFee_Return (this : Transaction) (h : heap) (fee : number)
    (o : loc) (rest : list loc) :
  outputs this = o :: rest →
  addFee this h fee
  = Return (this, <[o := {| amount := jsAdd (amount (h o)) fee;
                            address := address (h o);
                            outputKeys := outputKeys (h o) |}]> h).
Proof. intros Hout. unfold addFee. by rewrite Hout. Qed.

(** C8, as the code has it.  For a transaction built by the constructor (in
    the store [h0]) whose first output object occurs at no other position
    of [outputs], whose amounts are the integers [x :: xs] and for a fee
    that is the integer [f], such that the absolute values of all these
    add up to at most [2 ^ 53]: [addFee], in whatever store [h] with these
    amounts it is called, adds [f] to the amount of the first output
    object, so that [totalOutput] grows by [f], and leaves the id at the
    value computed at construction from the objects the arrays then
    held. *)
Theorem addFee_effect (h0 h : heap) (ins : option (list Input))
    (o : loc) (rest : list loc) (x f : Z) (xs : list Z) :
  o ∉ rest →
  amounts h (o :: rest) = Num <$> (x :: xs) →
  sumAbs (x :: xs) + Z.abs f ≤ 2 ^ 53 →
  let this := constructor h0 (o :: rest) ins in
  ∃ (this' : Transaction) (h' : heap),
    addFee this h (Num f) = Return (this', h')
    ∧ amount (h o) = Num x
    ∧ amount (h' o) = Num (x + f)
    ∧ totalOutput this h = Num (sumZ (x :: xs))
    ∧ totalOutput this' h' = Num (sumZ (x :: xs) + f)
    ∧ id this' = id this
    ∧ id this'
      = hash (EmptyString +:+ JSON_stringify (default [] ins) (h0 <$> o :: rest)).
Proof.
  intros Hnotin Ham Hb this.
  pose proof (sumAbs_nonneg (x :: xs)) as Hnn.
  assert (Hx : amount (h o) = Num x) by (by injection Ham).
  destruct (amounts_insert h o f (o :: rest) (x :: xs) Ham) as
    (zs' & Ham' & Habs & Hsum).
  { rewrite filter_cons_True, filter_eq_not_elem_of by done. simpl length. lia. }
  rewrite filter_cons_True, filter_eq_not_elem_of in Habs, Hsum by done.
  simpl length in *.
  eexists this, _. split; [by apply (addFee_Return _ _ _ o rest)|].
  split_and!; [done| | | |done|done].
  - rewrite fn_lookup_insert. simpl. rewrite Hx.
    apply jsAdd_exact. simpl in Hb. pose proof (sumAbs_nonneg xs). lia.
  - apply totalOutput_exact; [done|lia].
  - rewrite (totalOutput_exact this _ zs'); [f_equal; lia|done|lia].
Qed.

(** C9, as the code has it.  The id computed by the constructor is the
    hash of the serialisation of the objects that the two arrays hold, and
    depends on nothing else: two constructions, in any two stores and from
    any references, whose inputs (an omitted [inputs] counting as the empty
    array) and whose output objects have the same property values in the
    same property order, give the same id. *)
Theorem constructor_id_deterministic (h1 h2 : heap)
    (outs1 outs2 : list loc) (ins1 ins2 : option (list Input)) :
  default [] ins1 = default [] ins2 →
  h1 <$> outs1 = h2 <$> outs2 →
  id (constructor h1 outs1 ins1) = id (constructor h2 outs2 ins2)
  ∧ id (constructor h1 outs1 ins1)
    = hash (EmptyString +:+ JSON_stringify (default [] ins2) (h2 <$> outs2)).
Proof. intros Hin Hout. unfold constructor. simpl. by rewrite Hin, Hout. Qed.

End Properties.

(** ** Further properties of the methods *)

Lemma existsb_pointwise {A} (p q : A → bool) (l : list A) :
  (∀ x, x ∈ l → p x = q x) → existsb p l = existsb q l.
Proof.
  induction l as [|x l IH]; intros Hpq; simpl; [done|].
  rewrite Hpq by left. rewrite IH; [done|]. intros y Hy. apply Hpq. by right.
Qed.

Section Further.
Context {utils : Utils}.

(** The outputs stored in the index are read from the store at the stored
    objects only. *)
Lemma storedOutputs_ext (h1 h2 : heap) (utxos : UTXOs) :
  (∀ utxo objs obj, utxos !! utxo = Some objs → obj ∈ objs → h1 obj = h2 obj) →
  storedOutputs h1 utxos = storedOutputs h2 utxos.
Proof.
  intros Hagree. unfold storedOutputs.
  assert (Hall : ∀ utxo objs, (utxo, objs) ∈ map_to_list utxos →
            h1 <$> (objs : list loc) = h2 <$> objs).
  { intros utxo objs Hin%elem_of_map_to_list.
    apply list_fmap_ext. intros ? obj Hl. eapply Hagree; [done|].
    by eapply list_elem_of_lookup_2. }
  induction (map_to_list utxos) as [|[utxo objs] l IH]; [done|].
  rewrite !bind_cons. rewrite (Hall utxo objs) by left.
  rewrite IH; [done|]. intros u os Hin. apply (Hall u os). by right.
Qed.

(** X1. [isValid] rejects exactly when no signature of any input verifies
    on any object stored under any key of the index. *)
Theorem isValid_false_iff (this : Transaction) (h : heap) (utxos : UTXOs) :
  isValid this h utxos = false
  ↔ ∀ input utxo objs obj,
      input ∈ inputs this → utxos !! utxo = Some objs → obj ∈ objs →
      verifySignature (pubKey input) (h obj) (sig input) = false.
Proof.
  rewrite <- not_true_iff_false, isValid_true. split.
  - intros Hno input utxo objs obj Hin Hl Hobj.
    apply not_true_iff_false. intros Hv. apply Hno. eauto 10.
  - intros Hall (input & utxo & objs & obj & Hin & Hl & Hobj & Hv).
    by rewrite (Hall input utxo objs obj) in Hv.
Qed.

(** X2. Acceptance is monotone: a transaction accepted against an index
    stays accepted when inputs are added to it and when keys are added to
    the index. *)
Theorem isValid_monotone (this this' : Transaction) (h : heap)
    (utxos utxos' : UTXOs) :
  inputs this ⊆ inputs this' →
  utxos ⊆ utxos' →
  isValid this h utxos = true →
  isValid this' h utxos' = true.
Proof.
  intros Hin Hsub. rewrite !isValid_true.
  intros (input & utxo & objs & obj & Hi & Hl & Hobj & Hv).
  exists input, utxo, objs, obj. split_and!; [by apply Hin| |done..].
  by eapply lookup_weaken.
Qed.

(** X3. An index all of whose arrays are empty (the empty index among
    them) makes [isValid] reject every transaction. *)
Theorem isValid_empty_arrays (this : Transaction) (h : heap) (utxos : UTXOs) :
  (∀ utxo objs, utxos !! utxo = Some objs → objs = []) →
  isValid this h utxos = false.
Proof.
  intros Hempty. apply not_true_iff_false.
  intros (input & utxo & objs & obj & _ & Hl & Hobj & _)%isValid_true.
  rewrite (Hempty utxo objs Hl) in Hobj. by apply elem_of_nil in Hobj.
Qed.

(** X4. A transaction is accepted exactly when one of its inputs, taken
    alone, is: the result is the disjunction over the inputs of the results
    of the one-input transactions. *)
Theorem isValid_inputs_disjunction
    (this : Transaction) (h : heap) (utxos : UTXOs) :
  isValid this h utxos
  = existsb (λ input,
      isValid (mkTransaction (id this) [input] (outputs this)) h utxos)
    (inputs this).
Proof.
  rewrite isValid_existsb. apply existsb_pointwise. intros input _.
  rewrite isValid_existsb. simpl. by rewrite orb_false_r.
Qed.

(** X5. [addFee] on a transaction whose first output object is stored at no
    key of the index leaves the result of [isValid], for any transaction,
    as it was. *)
Theorem isValid_addFee_frame (payee payee' this : Transaction)
    (h h' : heap) (fee : number) (utxos : UTXOs) :
  addFee payee h fee = Return (payee', h') →
  (∀ o utxo objs,
     outputs payee !! 0%nat = Some o → utxos !! utxo = Some objs → o ∉ objs) →
  isValid this h' utxos = isValid this h utxos.
Proof.
  unfold addFee. intros Hadd Hfresh.
  destruct (outputs payee !! 0%nat) as [o|] eqn:Ho; [|done].
  injection Hadd as _ <-. rewrite !isValid_existsb.
  rewrite (storedOutputs_ext _ h utxos); [done|].
  intros utxo objs obj Hl Hobj. apply fn_lookup_insert_ne.
  intros ->. by eapply Hfresh.
Qed.

(** What a returned amount tells the caller of [spendOutput]. *)
Lemma spendOutput_Return_inv
    (this : Transaction) (h : heap) (input : Input) (a : number) :
  spendOutput this h input = Return a →
  txID input = id this
  ∧ ∃ output,
      outputs this !! outputIndex input = Some output
      ∧ calcAddress (pubKey input) = address (h output)
      ∧ verifySignature (pubKey input) (h output) (sig input) = true
      ∧ a = amount (h output).
Proof.
  unfold spendOutput.
  destruct (decide (txID input ≠ id this)) as [Hne|Heq%dec_stable]; [done|].
  destruct (outputs this !! outputIndex input) as [output|]; [|done].
  destruct (decide (calcAddress (pubKey input) ≠ address (h output)))
    as [Hne|Haddr%dec_stable]; [done|].
  destruct (verifySignature _ _ _) eqn:Hsig; simpl; [|done].
  intros [= <-]. eauto 10.
Qed.

(** X7. [spendOutput] returns an amount exactly for an input that names
    this transaction and an index in range, whose key has the address of
    the output at that index and whose signature verifies on that output;
    the amount is then that of the output. *)
Theorem spendOutput_Return_iff
    (this : Transaction) (h : heap) (input : Input) (a : number) :
  spendOutput this h input = Return a
  ↔ txID input = id this
    ∧ ∃ output,
        outputs this !! outputIndex input = Some output
        ∧ calcAddress (pubKey input) = address (h output)
        ∧ verifySignature (pubKey input) (h output) (sig input) = true
        ∧ a = amount (h output).
Proof.
  split; [apply spendOutput_Return_inv|].
  intros (Hid & output & Hout & Haddr & Hsig & ->). unfold spendOutput.
  rewrite decide_False by (by intros []). rewrite Hout.
  rewrite decide_False by (by intros []). by rewrite Hsig.
Qed.

(** X8. The only failure of [spendOutput] that is not one of its own errors
    is the [TypeError], and it is raised exactly for an input that names
    this transaction with an index out of range. *)
Theorem spendOutput_TypeError_iff
    (this : Transaction) (h : heap) (input : Input) :
  spendOutput this h input = Throw TypeError
  ↔ txID input = id this
    ∧ (length (outputs this) ≤ outputIndex input)%nat.
Proof.
  unfold spendOutput.
  destruct (decide (txID input ≠ id this)) as [Hne|Heq%dec_stable].
  { split; [done|]. by intros [? _]. }
  destruct (outputs this !! outputIndex input) as [output|] eqn:Hout.
  - apply lookup_lt_Some in Hout.
    split; [|lia]. by repeat case_match.
  - apply lookup_ge_None in Hout. done.
Qed.

(** X9. [addFee] leaves the result of [spendOutput] as it was for every
    input that names another transaction, and for every input whose index
    does not refer to the object of the first output: another object, or
    an index out of range. *)
Theorem spendOutput_addFee_frame (this this' : Transaction) (h h' : heap)
    (fee : number) (input : Input) :
  addFee this h fee = Return (this', h') →
  txID input ≠ id this
    ∨ outputs this !! outputIndex input ≠ outputs this !! 0%nat →
  spendOutput this' h' input = spendOutput this h input.
Proof.
  unfold addFee. intros Hadd Hother.
  destruct (outputs this !! 0%nat) as [o|] eqn:Ho; [|done].
  injection Hadd as <- <-. unfold spendOutput.
  destruct (decide (txID input ≠ id this)) as [|Hid%dec_stable]; [done|].
  destruct Hother as [|Hother]; [done|].
  destruct (outputs this !! outputIndex input) as [output|]; [|done].
  rewrite fn_lookup_insert_ne; [done|]. congruence.
Qed.

(** X10. After [addFee], a spend of the first output that succeeds returns
    the sum, as numbers, of the amount that output had and the fee: their
    exact sum when they are integers whose sum is within [2 ^ 53] in
    absolute value. *)
Theorem spendOutput_after_addFee (this this' : Transaction) (h h' : heap)
    (fee a : number) (input : Input) :
  addFee this h fee = Return (this', h') →
  outputIndex input = 0%nat →
  spendOutput this' h' input = Return a →
  ∃ o, outputs this !! 0%nat = Some o
       ∧ a = jsAdd (amount (h o)) fee
       ∧ ∀ x f, amount (h o) = Num x → fee = Num f →
                Z.abs (x + f) ≤ 2 ^ 53 → a = Num (x + f).
Proof.
  unfold addFee. intros Hadd Hidx Hspend.
  destruct (outputs this !! 0%nat) as [o|] eqn:Ho; [|done].
  injection Hadd as <- <-.
  apply spendOutput_Return_inv in Hspend as (_ & o' & Ho' & _ & _ & ->).
  rewrite Hidx, Ho in Ho'. injection Ho' as <-.
  exists o. rewrite fn_lookup_insert. simpl. split_and!; [done..|].
  intros x f -> -> Hb. by apply jsAdd_exact.
Qed.

(** X11. An input that [spendOutput] of a transaction authorises makes
    [isValid] accept every transaction that carries it, against any index
    that stores the outputs of the spent transaction under some key. *)
Theorem spendOutput_isValid (prev this : Transaction) (h : heap)
    (utxos : UTXOs) (utxo : string) (input : Input) (a : number) :
  spendOutput prev h input = Return a →
  utxos !! utxo = Some (outputs prev) →
  input ∈ inputs this →
  isValid this h utxos = true.
Proof.
  intros (_ & output & Hout & _ & Hv & _)%spendOutput_Return_inv Hl Hin.
  apply isValid_true. exists input, utxo, (outputs prev), output.
  split_and!; [done..| |done]. by eapply list_elem_of_lookup_2.
Qed.

(** X12. For integer amounts and an integer fee [f], [addFee] changes the
    [totalOutput] of any transaction, the one it is called on or another,
    by [f] for each position of that transaction's [outputs] that holds
    the object of the first output of the callee, as long as the absolute
    values of the amounts and of the fees so added add up to at most
    [2 ^ 53]; a transaction that shares no such object keeps its total. *)
Theorem addFee_totalOutput_any (this this' other : Transaction)
    (h h' : heap) (f : Z) (o : loc) (zs : list Z) :
  addFee this h (Num f) = Return (this', h') →
  outputs this !! 0%nat = Some o →
  amounts h (outputs other) = Num <$> zs →
  sumAbs zs + Z.of_nat (length (filter (o =.) (outputs other))) * Z.abs f
    ≤ 2 ^ 53 →
  totalOutput other h = Num (sumZ zs)
  ∧ totalOutput other h'
    = Num (sumZ zs
           + f * Z.of_nat (length (filter (o =.) (outputs other)))).
Proof.
  unfold addFee. intros Hadd Ho Ham Hb. rewrite Ho in Hadd.
  injection Hadd as _ <-.
  pose proof (Zle_0_nat (length (filter (o =.) (outputs other)))).
  destruct (amounts_insert h o f (outputs other) zs Ham Hb)
    as (zs' & Ham' & Habs & Hsum).
  split.
  - apply totalOutput_exact; [done|nia].
  - rewrite (totalOutput_exact other _ zs'); [by rewrite Hsum|done|lia].
Qed.

(** X13. When the first output holds the integer [x] and the fees are the
    integers [f1] and [f2], with absolute values that add up to at most
    [2 ^ 53], two calls of [addFee] in a row leave the store that one call
    with the fee [f1 + f2] leaves; in particular a fee followed by its
    opposite restores every object. *)
Theorem addFee_addFee (this t1 t2 : Transaction) (h h1 h2 : heap)
    (o : loc) (x f1 f2 : Z) :
  outputs this !! 0%nat = Some o →
  amount (h o) = Num x →
  Z.abs x + Z.abs f1 + Z.abs f2 ≤ 2 ^ 53 →
  addFee this h (Num f1) = Return (t1, h1) →
  addFee t1 h1 (Num f2) = Return (t2, h2) →
  (∃ h3 : heap,
     addFee this h (Num (f1 + f2)) = Return (t2, h3) ∧ ∀ o', h3 o' = h2 o')
  ∧ (f1 + f2 = 0 → ∀ o', h2 o' = h o').
Proof.
  unfold addFee. intros Ho Hx Hb Hadd1 Hadd2. rewrite Ho in *.
  injection Hadd1 as <- <-. rewrite Ho in Hadd2. injection Hadd2 as <- <-.
  assert (Hamount :
    jsAdd (jsAdd (amount (h o)) (Num f1)) (Num f2) = Num (x + (f1 + f2))).
  { rewrite Hx, !jsAdd_exact by lia. f_equal. lia. }
  split.
  - eexists. split; [done|]. intros o'.
    destruct (decide (o = o')) as [<-|Hne].
    + rewrite !fn_lookup_insert. simpl. rewrite ?fn_lookup_insert. simpl.
      rewrite Hamount, Hx. by rewrite jsAdd_exact by lia.
    + by rewrite !fn_lookup_insert_ne.
  - intros Hzero o'. destruct (decide (o = o')) as [<-|Hne].
    + rewrite !fn_lookup_insert. simpl. rewrite ?fn_lookup_insert. simpl.
      rewrite Hamount, Hzero, Z.add_0_r.
      rewrite <- Hx. by destruct (h o).
    + by rewrite !fn_lookup_insert_ne.
Qed.

(** X14. [addFee] fails exactly on a transaction without outputs, with the
    runtime's [TypeError]; on any other it returns, with the transaction
    object as it was. *)
Theorem addFee_Throw_iff (this : Transaction) (h : heap) (fee : number) :
  (∀ e, addFee this h fee = Throw e ↔ outputs this = [] ∧ e = TypeError)
  ∧ (∀ this' h', addFee this h fee = Return (this', h') →
       outputs this ≠ [] ∧ this' = this).
Proof.
  unfold addFee. destruct (outputs this) as [|o rest]; simpl; split.
  - intros e. split; [by intros [= <-]|by intros [_ ->]].
  - done.
  - intros e. split; [done|by intros [? _]].
  - by intros this' h' [= <- _].
Qed.

(** The [reduce] of [totalOutput] over non-negative integers stays above
    zero, above every non-negative double that the accumulator was above
    and above every amount it adds. *)
Lemma foldl_jsAdd_lower (h : heap) (l : list loc) (bs : list Z) (acc : number) :
  (∀ o, o ∈ l → nonNegativeInteger (amount (h o))) →
  number_leb (Num 0) acc = true →
  (∀ b, b ∈ bs →
     0 ≤ b ∧ roundNearestEven b = b ∧ number_leb (Num b) acc = true) →
  number_leb (Num 0) (foldl (λ acc o, jsAdd acc (amount (h o))) acc l) = true
  ∧ (∀ b, b ∈ bs →
       number_leb (Num b)
         (foldl (λ acc o, jsAdd acc (amount (h o))) acc l) = true)
  ∧ (∀ o, o ∈ l →
       number_leb (amount (h o))
         (foldl (λ acc o, jsAdd acc (amount (h o))) acc l) = true).
Proof.
  revert bs acc. induction l as [|o l IH]; intros bs acc Hpos Hacc Hbs.
  { split_and!; [done| |by intros ? ?%elem_of_nil]. intros b Hb. by apply Hbs. }
  destruct (Hpos o) as (a & Ha & Ha0 & Harep); [by left|].
  apply andb_true_iff in Harep as [Harep%Z.eqb_eq _].
  cbn [foldl]. rewrite Ha.
  destruct (IH (a :: bs) (jsAdd acc (Num a))) as (H0 & Hbs' & Hl).
  - intros o' Ho'. apply Hpos. by right.
  - apply jsAdd_lower; [done|done|done|done|]. by left.
  - intros b [->|Hb]%elem_of_cons.
    + split_and!; [done..|]. apply jsAdd_lower; [done..|]. by right.
    + destruct (Hbs b Hb) as (? & ? & ?).
      split_and!; [done..|]. apply jsAdd_lower; [done..|]. by left.
  - split_and!; [done| |].
    + intros b Hb. apply Hbs'. by right.
    + intros o' [->|Ho']%elem_of_cons; [|by apply Hl].
      rewrite Ha. apply Hbs'. by left.
Qed.

(** X15. When every output of a transaction has a non-negative integer
    amount, the amount of each of its outputs is at most [totalOutput],
    which is not negative either. *)
Theorem totalOutput_ge_amount (this : Transaction) (h : heap) :
  (∀ o, o ∈ outputs this → nonNegativeInteger (amount (h o))) →
  number_leb (Num 0) (totalOutput this h) = true
  ∧ ∀ o, o ∈ outputs this →
         number_leb (amount (h o)) (totalOutput this h) = true.
Proof.
  intros Hpos. unfold totalOutput.
  destruct (foldl_jsAdd_lower h (outputs this) [] (Num 0)) as (H0 & _ & Hl);
    [done|done|by intros ? ?%elem_of_nil|done].
Qed.

(** X16. For integer amounts whose absolute values add up to at most
    [2 ^ 53], [totalOutput] does not depend on the order of [outputs]. *)
Theorem totalOutput_Permutation (this this' : Transaction) (h : heap)
    (zs : list Z) :
  outputs this ≡ₚ outputs this' →
  amounts h (outputs this) = Num <$> zs →
  sumAbs zs ≤ 2 ^ 53 →
  totalOutput this h = totalOutput this' h.
Proof.
  intros Hperm Ham Hb.
  assert (Hperm' : amounts h (outputs this') ≡ₚ Num <$> zs).
  { rewrite <- Ham. unfold amounts. by rewrite Hperm. }
  apply amounts_Num in Hperm' as [Ham' Hzs].
  rewrite (totalOutput_exact this h zs) by done.
  rewrite (totalOutput_exact this' h _ Ham').
  - f_equal. symmetry. by apply sumZ_Permutation.
  - by rewrite (sumAbs_Permutation _ zs).
Qed.

(** X17. What an error of [spendOutput] tells its caller: a reference
    mismatch, that the input names another transaction; an address
    mismatch, that the input names this transaction and an index in range
    and that its key does not have the address of that output; an invalid
    signature, that moreover the address matches and the signature does
    not verify on that output.  No error is of the kind
    [IndexOutOfRange]. *)
Theorem spendOutput_Error_inv (this : Transaction) (h : heap)
    (input : Input) (kind : ErrorKind) (message : string) :
  spendOutput this h input = Throw (Error kind message) →
  match kind with
  | ReferenceMismatch => txID input ≠ id this
  | IndexOutOfRange => False
  | AddressMismatch =>
      txID input = id this
      ∧ ∃ output,
          outputs this !! outputIndex input = Some output
          ∧ calcAddress (pubKey input) ≠ address (h output)
  | InvalidSignature =>
      txID input = id this
      ∧ ∃ output,
          outputs this !! outputIndex input = Some output
          ∧ calcAddress (pubKey input) = address (h output)
          ∧ verifySignature (pubKey input) (h output) (sig input) = false
  end.
Proof.
  unfold spendOutput.
  destruct (decide (txID input ≠ id this)) as [Hne|Heq%dec_stable].
  { by intros [= <- _]. }
  destruct (outputs this !! outputIndex input) as [output|]; [|done].
  destruct (decide (calcAddress (pubKey input) ≠ address (h output)))
    as [Hne|Haddr%dec_stable].
  { intros [= <- _]. eauto. }
  destruct (verifySignature _ _ _) eqn:Hsig; simpl; [done|].
  intros [= <- _]. eauto 6.
Qed.

End Further.

(** X6. [isValid] consults the interface through [verifySignature] only:
    two instances with the same signature check, whatever their hash and
    address derivation are, give the same result. *)
Theorem isValid_only_verifySignature (utils1 utils2 : Utils)
    (this : Transaction) (h : heap) (utxos : UTXOs) :
  (∀ key o s,
     @verifySignature utils1 key o s = @verifySignature utils2 key o s) →
  @isValid utils1 this h utxos = @isValid utils2 this h utxos.
Proof.
  intros Hsame. rewrite !isValid_existsb.
  apply existsb_pointwise. intros input _.
  apply existsb_pointwise. intros o _. apply Hsame.
Qed.


(** * The methods on concrete transactions

    The examples below run the methods with the deterministic instance
    [Fake.utils] of the interface. *)

(** Addition of numbers: exact up to [2 ^ 53], then rounded to the nearest
    double, ties to even; an infinity from [2 ^ 1024] on. *)
Example jsAdd_rounds :
  jsAdd (Num 20) (Num 5) = Num 25
  ∧ jsAdd (Num (2 ^ 53)) (Num 1) = Num (2 ^ 53)
  ∧ jsAdd (Num (2 ^ 53 + 2)) (Num 1) = Num (2 ^ 53 + 4)
  ∧ jsAdd (Num (2 ^ 52 + 1)) (Num (2 ^ 52)) = Num (2 ^ 53)
  ∧ jsAdd (Num (2 ^ 1023)) (Num (2 ^ 1023)) = PosInfinity
  ∧ jsAdd PosInfinity NegInfinity = NaN.
Proof. by vm_compute. Qed.

(** Beyond [2 ^ 53] the [reduce] of [totalOutput] depends on the order of
    the outputs: [2 ^ 53], 1 and 1 coins add up to [2 ^ 53], and 1, 1 and
    [2 ^ 53] coins to [2 ^ 53 + 2]. *)
Example totalOutput_order :
  totalOutput (constructor Fake.bigStore [0; 1; 1]%nat None) Fake.bigStore
  = Num (2 ^ 53)
  ∧ totalOutput (constructor Fake.bigStore [1; 1; 0]%nat None) Fake.bigStore
    = Num (2 ^ 53 + 2).
Proof. by vm_compute. Qed.

(** The acceptance scenario: 30 coins in, 25 out, key and signature right. *)
Example isValid_accepted :
  positionallyValid Fake.accepted Fake.store Fake.utxos30 = true
  ∧ isValid Fake.accepted Fake.store Fake.utxos30 = true.
Proof. by vm_compute. Qed.

(** The messages of the three errors of [spendOutput]. *)
Example spendOutput_messages :
  let this := Fake.coinbase in
  spendOutput this Fake.store (mkInput "T1" 0 "K" "bad")
  = Throw (Error ReferenceMismatch
      "Transaction id of input was T1, but this transaction's id is #{inputs:[],outputs:[{amount:25,address:addr(K)}]}")
  ∧ spendOutput this Fake.store (mkInput (id this) 0 "J" "bad")
  = Throw (Error AddressMismatch
      "Public key does not match its hash for tx #{inputs:[],outputs:[{amount:25,address:addr(K)}]}, output 0.")
  ∧ spendOutput this Fake.store (mkInput (id this) 0 "K" "bad")
  = Throw (Error InvalidSignature
      "Invalid signature for #{inputs:[],outputs:[{amount:25,address:addr(K)}]}, outpout 0.").
Proof. by vm_compute. Qed.

(** C1. The transaction with one valid input of 10 coins and one output of
    20 coins: its input passes the lookup, address and signature checks at
    its own position and is worth 10, its outputs total 20, so the
    positional check rejects it; [isValid] returns [true]. *)
Theorem isValid_insufficient_funds :
  inputs Fake.insufficient = [Fake.spend10]
  ∧ checkInput Fake.store Fake.utxos10 Fake.spend10 = Some (Num 10)
  ∧ totalOutput Fake.insufficient Fake.store = Num 20
  ∧ positionallyValid Fake.insufficient Fake.store Fake.utxos10 = false
  ∧ isValid Fake.insufficient Fake.store Fake.utxos10 = true.
Proof. by vm_compute. Qed.

(** C3. The transaction whose only input names the transaction [T9], which
    is no key of the index: [isValid] returns [true], because the signature
    of the input verifies on an output stored under another key. *)
Theorem isValid_missing_txID :
  ∃ input,
    input ∈ inputs Fake.dangling
    ∧ Fake.utxos30 !! txID input = None
    ∧ isValid Fake.dangling Fake.store Fake.utxos30 = true.
Proof. eexists. split; [by left|]. by vm_compute. Qed.

(** C2 fails on the transaction that lists the same input twice: both
    inputs reference output 0 of [T1], whose 30 coins alone cover the 25
    coins of the outputs, and [isValid] returns [true]. *)
Lemma isValid_double_spend_accepted :
  ∃ i j,
    inputs Fake.doubleSpend !! 0%nat = Some i
    ∧ inputs Fake.doubleSpend !! 1%nat = Some j
    ∧ txID i = txID j ∧ outputIndex i = outputIndex j
    ∧ checkInput Fake.store Fake.utxos30 i = Some (Num 30)
    ∧ totalOutput Fake.doubleSpend Fake.store = Num 25
    ∧ isValid Fake.doubleSpend Fake.store Fake.utxos30 ≠ false.
Proof. do 2 eexists. split_and!; try reflexivity. by vm_compute. Qed.

(** C5 fails on an input that names the transaction itself and the index 5
    of its one-element [outputs]: what [spendOutput] throws is no error of
    the kind [IndexOutOfRange]. *)
Lemma spendOutput_no_IndexOutOfRange :
  let this := Fake.coinbase in
  let input := mkInput (id this) 5 "K" (Fake.sign "K" (Fake.store 3%nat)) in
  txID input = id this
  ∧ outputs this !! outputIndex input = None
  ∧ ¬ ∃ message,
      spendOutput this Fake.store input = Throw (Error IndexOutOfRange message).
Proof.
  split_and!; [done..|]. intros [message Hthrow].
  vm_compute in Hthrow. discriminate.
Qed.

(** C8 fails on the transaction whose two outputs are one object of 20
    coins, where [addFee] of 5 coins raises [totalOutput] from 40 to 50, by
    10; and on the transaction whose one output holds [2 ^ 53] coins, where
    [addFee] of 1 coin leaves the amount of the output and [totalOutput]
    at [2 ^ 53]. *)
Lemma addFee_not_by_amount :
  (outputs Fake.aliased ≠ []
   ∧ totalOutput Fake.aliased Fake.store = Num 40
   ∧ ∃ (this' : Transaction) (h' : heap),
       addFee Fake.aliased Fake.store (Num 5) = Return (this', h')
       ∧ totalOutput this' h' = Num 50)
  ∧ (outputs Fake.big = [0%nat]
     ∧ amount (Fake.bigStore 0%nat) = Num (2 ^ 53)
     ∧ totalOutput Fake.big Fake.bigStore = Num (2 ^ 53)
     ∧ ∃ (this' : Transaction) (h' : heap),
         addFee Fake.big Fake.bigStore (Num 1) = Return (this', h')
         ∧ amount (h' 0%nat) = Num (2 ^ 53)
         ∧ totalOutput this' h' = Num (2 ^ 53)).
Proof.
  split.
  - split_and!; [done|by vm_compute|]. do 2 eexists.
    split; [reflexivity|]. by vm_compute.
  - split_and!; [done|by vm_compute|by vm_compute|]. do 2 eexists.
    split; [reflexivity|]. by vm_compute.
Qed.

(** C9 fails on two transactions with one output each, of 25 coins at the
    same address, where one output object was built as [{amount, address}]
    and the other as [{address, amount}]: the serialisations, and with a
    hash that tells them apart the ids, differ. *)
Lemma constructor_id_key_order :
  let o1 := Fake.store 3%nat in
  let o2 := Fake.swappedStore 3%nat in
  amount o1 = amount o2
  ∧ address o1 = address o2
  ∧ id (constructor Fake.store [3%nat] None)
    ≠ id (constructor Fake.swappedStore [3%nat] None).
Proof. by vm_compute. Qed.

(** ** The theorems at concrete inputs *)

(** A coinbase transaction against an index that holds 30 coins. *)
Lemma isValid_no_inputs_witness :
  inputs Fake.coinbase = []
  ∧ isValid Fake.coinbase Fake.store Fake.utxos30 = false.
Proof.
  split; [reflexivity|]. apply isValid_no_inputs. reflexivity.
Defined.

(** The accepted transaction, and one whose input carries the same key and
    signature but names output 7 of [T9], with other outputs of its own,
    against an index that stores the same two objects under other keys. *)
Lemma isValid_ignores_references_witness :
  let this2 :=
    constructor Fake.store [1%nat; 2%nat]
      (Some [mkInput "T9" 7 "K" (Fake.sign "K" (Fake.store 0%nat))]) in
  let utxos1 : UTXOs := {[ "T1" := [0%nat; 1%nat] ]} in
  let utxos2 : UTXOs := {[ "A" := [1%nat]; "B" := [0%nat] ]} in
  isValid Fake.accepted Fake.store utxos1 = true
  ∧ isValid this2 Fake.store utxos2 = true.
Proof.
  intros this2 utxos1 utxos2.
  assert (Hsame : isValid Fake.accepted Fake.store utxos1
                  = isValid this2 Fake.store utxos2).
  { apply isValid_ignores_references.
    - discriminate.
    - reflexivity.
    - vm_compute. apply perm_swap. }
  split; [|rewrite <- Hsame]; vm_compute; reflexivity.
Defined.

(** An input that names [T1], presented to the coinbase transaction. *)
Lemma spendOutput_ReferenceMismatch_witness :
  txID Fake.spend30 ≠ id Fake.coinbase
  ∧ ∃ message,
      spendOutput Fake.coinbase Fake.store Fake.spend30
      = Throw (Error ReferenceMismatch message).
Proof.
  assert (Hne : txID Fake.spend30 ≠ id Fake.coinbase).
  { vm_compute. discriminate. }
  split; [exact Hne|]. apply spendOutput_ReferenceMismatch. exact Hne.
Defined.

(** Three inputs for output 0 of the coinbase transaction: under the key
    [J], whose address is not that of the output; under the key [K] with a
    signature of another output; under the key [K] with the signature of
    this output. *)
Lemma spendOutput_checks_witness :
  let this := Fake.coinbase in
  let h := Fake.store in
  (∃ message,
     spendOutput this h (mkInput (id this) 0 "J" (Fake.sign "J" (h 3%nat)))
     = Throw (Error AddressMismatch message))
  ∧ (∃ message,
     spendOutput this h (mkInput (id this) 0 "K" (Fake.sign "K" (h 0%nat)))
     = Throw (Error InvalidSignature message))
  ∧ spendOutput this h (mkInput (id this) 0 "K" (Fake.sign "K" (h 3%nat)))
    = Return (Num 25).
Proof.
  intros this h. split_and!.
  - apply (spendOutput_checks this h
      (mkInput (id this) 0 "J" (Fake.sign "J" (h 3%nat))) 3%nat
      eq_refl eq_refl).
    vm_compute. discriminate.
  - apply (spendOutput_checks this h
      (mkInput (id this) 0 "K" (Fake.sign "K" (h 0%nat))) 3%nat
      eq_refl eq_refl); vm_compute; reflexivity.
  - apply (spendOutput_checks this h
      (mkInput (id this) 0 "K" (Fake.sign "K" (h 3%nat))) 3%nat
      eq_refl eq_refl); vm_compute; reflexivity.
Defined.

(** Index 5 of the one-element [outputs] of the coinbase transaction. *)
Lemma spendOutput_out_of_range_witness :
  let this := Fake.coinbase in
  let input := mkInput (id this) 5 "K" (Fake.sign "K" (Fake.store 3%nat)) in
  (length (outputs this) ≤ outputIndex input)%nat
  ∧ spendOutput this Fake.store input = Throw TypeError.
Proof.
  intros this input.
  assert (Hge : (length (outputs this) ≤ outputIndex input)%nat).
  { vm_compute. lia. }
  split; [exact Hge|]. apply spendOutput_out_of_range; [reflexivity|exact Hge].
Defined.

(** A coinbase transaction with two distinct output objects, 20 and 25
    coins, and a fee of 5 coins. *)
Lemma addFee_effect_witness :
  let this := constructor Fake.store [2%nat; 3%nat] None in
  totalOutput this Fake.store = Num 45
  ∧ ∃ (this' : Transaction) (h' : heap),
      addFee this Fake.store (Num 5) = Return (this', h')
      ∧ amount (h' 2%nat) = Num 25
      ∧ totalOutput this' h' = Num 50
      ∧ id this' = id this.
Proof.
  intros this.
  destruct (addFee_effect Fake.store Fake.store None 2%nat [3%nat] 20 5 [25])
    as (this' & h' & Hadd & _ & Hamount & Htotal & Htotal' & Hid & _).
  { apply not_elem_of_cons. split; [lia|]. apply not_elem_of_nil. }
  { reflexivity. }
  { vm_compute. discriminate. }
  split; [exact Htotal|].
  exists this', h'.
  split_and!; [exact Hadd|exact Hamount|exact Htotal'|exact Hid].
Defined.

(** Two constructions from different output objects with the same
    properties in the same order, in different stores, one with [inputs]
    omitted and one with the empty array. *)
Lemma constructor_id_deterministic_witness :
  let h2 : heap := λ _, mkOutput 25 "addr(K)" in
  id (constructor Fake.store [3%nat] None)
  = id (constructor h2 [0%nat] (Some []))
  ∧ id (constructor Fake.store [3%nat] None)
    = hash (EmptyString +:+ JSON_stringify [] [mkOutput 25 "addr(K)"]).
Proof.
  intros h2.
  apply (constructor_id_deterministic Fake.store h2 [3%nat] [0%nat]
           None (Some [])); reflexivity.
Defined.

(** The transaction with two inputs for output 0 of [T1], neither of which
    carries a signature of the output stored there. *)
Lemma isValid_repeated_reference_witness :
  isValid Fake.forged Fake.store Fake.utxos30 = false.
Proof.
  apply (isValid_repeated_reference Fake.forged Fake.store Fake.utxos30
           0 1 (mkInput "T1" 0 "K" "bad") (mkInput "T1" 0 "J" "worse"));
    [lia|reflexivity..|].
  intros input utxo objs obj Hin Hl Hobj.
  unfold Fake.utxos30 in Hl. apply lookup_singleton_Some in Hl as [_ <-].
  apply list_elem_of_singleton in Hobj as ->.
  apply elem_of_cons in Hin as [->|Hin];
    [|apply list_elem_of_singleton in Hin as ->]; vm_compute; reflexivity.
Defined.

(** ** The further properties at concrete inputs *)

(** The accepted transaction, then with one more input and against an
    index with one more key. *)
Lemma isValid_monotone_witness :
  let this' := constructor Fake.store [3%nat]
                 (Some [Fake.spend10; Fake.spend30]) in
  let utxos' : UTXOs := <["T2" := [1%nat]]> Fake.utxos30 in
  isValid Fake.accepted Fake.store Fake.utxos30 = true
  ∧ isValid this' Fake.store utxos' = true.
Proof.
  intros this' utxos'.
  assert (Hacc : isValid Fake.accepted Fake.store Fake.utxos30 = true).
  { vm_compute. reflexivity. }
  split; [exact Hacc|].
  apply (isValid_monotone Fake.accepted this' Fake.store Fake.utxos30 utxos').
  - intros input Hin. apply list_elem_of_singleton in Hin as ->.
    right. left.
  - apply insert_subseteq. vm_compute. reflexivity.
  - exact Hacc.
Defined.

(** The accepted transaction against an index whose one array is empty. *)
Lemma isValid_empty_arrays_witness :
  isValid Fake.accepted Fake.store {[ "T1" := [] ]} = false.
Proof.
  apply isValid_empty_arrays.
  intros utxo objs Hl. apply lookup_singleton_Some in Hl as [_ <-].
  reflexivity.
Defined.

(** A fee of 5 coins for the coinbase transaction, whose output object [3]
    is not in the index, and the accepted transaction. *)
Lemma isValid_addFee_frame_witness :
  let h' : heap := <[3%nat := mkOutput 30 "addr(K)"]> Fake.store in
  addFee Fake.coinbase Fake.store (Num 5) = Return (Fake.coinbase, h')
  ∧ isValid Fake.accepted h' Fake.utxos30
    = isValid Fake.accepted Fake.store Fake.utxos30.
Proof.
  intros h'. split; [reflexivity|].
  apply (isValid_addFee_frame Fake.coinbase Fake.coinbase Fake.accepted
           Fake.store h' (Num 5) Fake.utxos30); [reflexivity|].
  intros o utxo objs Ho Hl. injection Ho as <-.
  unfold Fake.utxos30 in Hl. apply lookup_singleton_Some in Hl as [_ <-].
  apply not_elem_of_cons. split; [lia|apply not_elem_of_nil].
Defined.

(** The two instances of the interface on the accepted transaction. *)
Lemma isValid_only_verifySignature_witness :
  @isValid Fake.utils Fake.accepted Fake.store Fake.utxos30
  = @isValid Fake.otherUtils Fake.accepted Fake.store Fake.utxos30.
Proof.
  apply isValid_only_verifySignature. intros key o s. reflexivity.
Defined.

(** A fee of 5 coins for a transaction with the output objects [2] and [3],
    a spend of its second output, and a spend of its first output by an
    input that names another transaction. *)
Lemma spendOutput_addFee_frame_witness :
  let this := constructor Fake.store [2%nat; 3%nat] None in
  let h' : heap := <[2%nat := mkOutput 25 "addr(K)"]> Fake.store in
  let input := mkInput (id this) 1 "K" (Fake.sign "K" (Fake.store 3%nat)) in
  let stranger := mkInput "T1" 0 "K" (Fake.sign "K" (Fake.store 2%nat)) in
  addFee this Fake.store (Num 5) = Return (this, h')
  ∧ spendOutput this Fake.store input = Return (Num 25)
  ∧ spendOutput this h' input = spendOutput this Fake.store input
  ∧ spendOutput this h' stranger = spendOutput this Fake.store stranger.
Proof.
  intros this h' input stranger. split; [reflexivity|].
  split; [vm_compute; reflexivity|]. split.
  - apply (spendOutput_addFee_frame this this Fake.store h' (Num 5) input);
      [reflexivity|]. right. vm_compute. discriminate.
  - apply (spendOutput_addFee_frame this this Fake.store h' (Num 5) stranger);
      [reflexivity|]. left. vm_compute. discriminate.
Defined.

(** The same fee, and a spend of the first output signed for its new
    contents: 20 coins before, 25 returned. *)
Lemma spendOutput_after_addFee_witness :
  let this := constructor Fake.store [2%nat; 3%nat] None in
  let h' : heap := <[2%nat := mkOutput 25 "addr(K)"]> Fake.store in
  let input :=
    mkInput (id this) 0 "K" (Fake.sign "K" (mkOutput 25 "addr(K)")) in
  spendOutput this h' input = Return (Num 25)
  ∧ ∃ o, outputs this !! 0%nat = Some o
         ∧ Num 25 = jsAdd (amount (Fake.store o)) (Num 5)
         ∧ ∀ x f, amount (Fake.store o) = Num x → Num 5 = Num f →
                  Z.abs (x + f) ≤ 2 ^ 53 → Num 25 = Num (x + f).
Proof.
  intros this h' input.
  assert (Hspend : spendOutput this h' input = Return (Num 25)).
  { vm_compute. reflexivity. }
  split; [exact Hspend|].
  apply (spendOutput_after_addFee this this Fake.store h' (Num 5) (Num 25)
           input); [reflexivity|reflexivity|exact Hspend].
Defined.

(** The coinbase transaction, an input that spends its output, and an
    index that stores its outputs under its id. *)
Lemma spendOutput_isValid_witness :
  let utxos : UTXOs := {[ id Fake.coinbase := outputs Fake.coinbase ]} in
  spendOutput Fake.coinbase Fake.store Fake.spendCoinbase = Return (Num 25)
  ∧ isValid Fake.spender Fake.store utxos = true.
Proof.
  intros utxos.
  assert (Hspend :
    spendOutput Fake.coinbase Fake.store Fake.spendCoinbase
    = Return (Num 25)).
  { vm_compute. reflexivity. }
  split; [exact Hspend|].
  apply (spendOutput_isValid Fake.coinbase Fake.spender Fake.store utxos
           (id Fake.coinbase) Fake.spendCoinbase (Num 25)).
  - exact Hspend.
  - apply lookup_singleton_eq.
  - apply list_elem_of_here.
Defined.

(** A fee of 5 coins for a transaction whose output is the object [2], and
    the transaction that holds this object at both its positions. *)
Lemma addFee_totalOutput_any_witness :
  let this := constructor Fake.store [2%nat] None in
  let h' : heap := <[2%nat := mkOutput 25 "addr(K)"]> Fake.store in
  addFee this Fake.store (Num 5) = Return (this, h')
  ∧ totalOutput Fake.aliased Fake.store = Num 40
  ∧ totalOutput Fake.aliased h' = Num (40 + 5 * 2).
Proof.
  intros this h'. split; [reflexivity|].
  apply (addFee_totalOutput_any this this Fake.aliased Fake.store h' 5 2%nat
           [20; 20]); [reflexivity..|].
  vm_compute. discriminate.
Defined.

(** A fee of 5 coins and then of -5 coins for the coinbase transaction. *)
Lemma addFee_addFee_witness :
  let h1 : heap := <[3%nat := mkOutput 30 "addr(K)"]> Fake.store in
  let h2 : heap := <[3%nat := mkOutput 25 "addr(K)"]> h1 in
  addFee Fake.coinbase Fake.store (Num 5) = Return (Fake.coinbase, h1)
  ∧ addFee Fake.coinbase h1 (Num (-5)) = Return (Fake.coinbase, h2)
  ∧ ∀ o, h2 o = Fake.store o.
Proof.
  intros h1 h2. split; [reflexivity|]. split; [reflexivity|].
  apply (addFee_addFee Fake.coinbase Fake.coinbase Fake.coinbase
           Fake.store h1 h2 3%nat 25 5 (-5));
    [reflexivity|reflexivity| |reflexivity..].
  vm_compute. discriminate.
Defined.

(** A transaction with outputs of 20 and 25 coins. *)
Lemma totalOutput_ge_amount_witness :
  let this := constructor Fake.store [2%nat; 3%nat] None in
  number_leb (Num 0) (totalOutput this Fake.store) = true
  ∧ number_leb (amount (Fake.store 3%nat)) (totalOutput this Fake.store) = true.
Proof.
  intros this.
  destruct (totalOutput_ge_amount this Fake.store) as [Hpos Hle].
  { intros o _. unfold Fake.store.
    repeat case_match; eexists; (split; [reflexivity|]); by vm_compute. }
  split; [exact Hpos|]. apply Hle. right. left.
Defined.

(** The outputs [2; 3] and [3; 2]. *)
Lemma totalOutput_Permutation_witness :
  totalOutput (constructor Fake.store [2%nat; 3%nat] None) Fake.store
  = totalOutput (constructor Fake.store [3%nat; 2%nat] None) Fake.store.
Proof.
  apply (totalOutput_Permutation _ _ _ [20; 25]).
  - apply perm_swap.
  - reflexivity.
  - vm_compute. discriminate.
Defined.

(** The coinbase transaction and an input for its output under the key
    [K] that carries the signature of another output. *)
Lemma spendOutput_Error_inv_witness :
  let this := Fake.coinbase in
  let input := mkInput (id this) 0 "K" (Fake.sign "K" (Fake.store 0%nat)) in
  txID input = id this
  ∧ ∃ output,
      outputs this !! outputIndex input = Some output
      ∧ calcAddress (pubKey input) = address (Fake.store output)
      ∧ verifySignature (pubKey input) (Fake.store output) (sig input) = false.
Proof.
  intros this input.
  apply (spendOutput_Error_inv this Fake.store input InvalidSignature
    "Invalid signature for #{inputs:[],outputs:[{amount:25,address:addr(K)}]}, outpout 0.").
  vm_compute. reflexivity.
Defined.
